(** * mijia dashboard: the per-device reading pipeline of [server/main.go]

    A shallow embedding of [calcDewPoint], [calcAbsHum], [plural] and
    [loadSensorData], and the properties of the derived metrics, of the
    freshness label and of the assembled result set.

    Conventions.
    - [int8], [int16] and [int64] values are integers of [Z] within the
      range of the type; arithmetic that can leave the range is wrapped
      explicitly ([Go.wrap64]); [/] on integers is Go's truncated division,
      [Z.quot].
    - [float64] values are the binary64 floats of the kernel ([PrimFloat]),
      with the operations [+ - * /] and the comparisons of IEEE 754, as
      executed by Go without fused multiply-add.
    - Go strings are byte strings: [string], compared byte by byte.
    - The Go standard library is not part of the repository.  Functions
      of it that are plain arithmetic are modelled by their documented
      behaviour ([Go.Round], [Go.fmt_d], [Go.sort_Slice]); [math.Log],
      [math.Exp] and [time.Parse] are parameters, constrained only by the
      special cases their documentation lists. *)

From Stdlib Require Import ZArith List String Ascii Bool Lia.
From Stdlib Require Import DecimalString Permutation Sorted.
From Stdlib Require Import Floats.
Import ListNotations.

Set Warnings "-inexact-float".

Local Open Scope string_scope.
Local Open Scope Z_scope.

(** ** Go primitives used by the handler *)

Module Go.

(** Two's complement wrap-around of a mathematical integer into [int64]. *)
Definition wrap64 (z : Z) : Z := (z + 2 ^ 63) mod 2 ^ 64 - 2 ^ 63.

Definition int64 (z : Z) : Prop := - 2 ^ 63 <= z < 2 ^ 63.

(** [int64] subtraction. *)
Definition sub64 (a b : Z) : Z := wrap64 (a - b).

(** The verb [%d] of [fmt.Sprintf]: decimal digits, with a leading [-]
    for negative numbers. *)
Definition fmt_d (z : Z) : string := NilZero.string_of_int (Z.to_int z).

(** [s < t] on strings: lexicographic on bytes. *)
Definition string_lt (s t : string) : bool := String.ltb s t.

(** The multiple of [d] nearest to [m], as its factor; a tie goes up. *)
Definition nearestUp (m d : Z) : Z :=
  let q := m / d in
  let r := m mod d in
  if d <=? 2 * r then q + 1 else q.

(** [math.Round]: the nearest integer, halves away from zero;
    [Round(±0) = ±0], [Round(±Inf) = ±Inf], [Round(NaN) = NaN].  A finite
    non-zero float is [(-1)^s * m * 2^e]; with [e >= 0] it is an integer
    already, otherwise the magnitude [m / 2^(-e)] is rounded to the
    nearest integer, a tie going up, and the sign is put back. *)
Definition Round (x : float) : float :=
  match Prim2SF x with
  | S754_finite s m e =>
      if 0 <=? e then x
      else
        let y := of_uint63 (Uint63.of_Z (nearestUp (Z.pos m) (2 ^ (- e)))) in
        if s then (- y)%float else y
  | _ => x
  end.

(** [sort.Slice(data, less)].  The library promises a slice sorted by
    [less] and no stability; the handler sorts records whose keys are
    pairwise distinct, for which there is one sorted arrangement.  The
    model is insertion sort. *)
Fixpoint insert {A : Type} (less : A -> A -> bool) (x : A) (l : list A) : list A :=
  match l with
  | [] => [x]
  | y :: l' => if less y x then y :: insert less x l' else x :: l
  end.

Fixpoint sort_Slice {A : Type} (less : A -> A -> bool) (data : list A) : list A :=
  match data with
  | [] => []
  | x :: rest => insert less x (sort_Slice less rest)
  end.

End Go.

(** ** Data *)

Record SensorData : Type := mkSensorData {
  Temp : float;
  Humidity : float;
  BatteryMV : Z;
  BatteryLevel : Z;
  Timestamp : string;
  DewPoint : float;
  AbsHum : float;
  BatteryIcon : string;
  DewPointText : string;
  Mac : string;
  Loc : string;
  TimeRelative : string
}.

(** What [QueryRow(...).Scan(...)] leaves behind: the five destinations
    (the zero values where [Scan] wrote nothing) and whether [err != nil]. *)
Record ScanResult : Type := mkScan {
  scan_temp : float;
  scan_humidity : float;
  scan_battery_mv : Z;
  scan_battery_level : Z;
  scan_timestamp : string;
  scan_err : bool
}.

(** [Config]; the store handle [Db] is modelled by what the latest-row
    query on it returns during the invocation. *)
Record Config : Type := mkConfig {
  Config_Loc : string;
  Config_Db : ScanResult
}.

(** [ConfigMap], in the order in which [range] visits it on one
    invocation: Go fixes no order, so every arrangement of the entries is
    a possible argument.  The keys of a map are pairwise distinct. *)
Definition ConfigMap : Type := list (string * Config).

Definition wellFormed (configMap : ConfigMap) : Prop := NoDup (map fst configMap).

(** What the handler did to its [http.ResponseWriter]: the [http.Error]
    calls in order (message, status) and the data handed to the template
    [templates/sensors.html]. *)
Record Response : Type := mkResponse {
  httpErrors : list (string * Z);
  executed : list SensorData
}.

Definition StatusInternalServerError : Z := 500.

(** ** [plural] *)

Definition plural (number : Z) (part : string) : string :=
  if number =? 1 then "" else part.

(** ** The battery icon (lines 107-121 of [loadSensorData]) *)

Definition batteryIcon (BatteryLevel : Z) : string :=
  let icon := "fa-battery-exclamation" in
  if BatteryLevel <? 5 then "fa-battery-empty red"
  else if BatteryLevel <? 15 then "fa-battery-empty yellow"
  else if BatteryLevel <? 35 then "fa-battery-quarter"
  else if BatteryLevel <? 65 then "fa-battery-half"
  else if BatteryLevel <? 85 then "fa-battery-three-quarters"
  else "fa-battery-full green".

(** ** The relative time (lines 134-149 of [loadSensorData])

    [timeRelative] is the body of the [err == nil] branch, as a function
    of [diff_seconds]. *)

Definition timeRelative (diff_seconds : Z) : string :=
  let diff_minutes := Z.quot diff_seconds 60 in
  let diff_hours := Z.quot diff_minutes 60 in
  let diff_days := Z.quot diff_hours 24 in
  if diff_seconds <? 60 then "Up to date"
  else if diff_minutes <? 60 then
    Go.fmt_d diff_minutes ++ " Minute" ++ plural diff_minutes "s" ++ " ago"
  else if diff_hours <? 24 then
    Go.fmt_d diff_hours ++ " Hour" ++ plural diff_hours "s" ++ " ago"
  else
    Go.fmt_d diff_days ++ " Day" ++ plural diff_days "s".

(** ** The handler *)

Section Handler.

(** [math.Log] and [math.Exp]. *)
Variable Log : float -> float.
Variable Exp : float -> float.

(** [time.Parse(time.RFC3339, s)] followed by [.Unix()]: [None] when
    [err != nil]. *)
Variable Parse : string -> option Z.

(** [time.Now().Unix()] as read during the iteration for a device. *)
Variable Now : string -> Z.

Definition calcDewPoint (hum temp : float) : float :=
  let const1 := 241.2%float in
  let const2 := 17.5043%float in
  let '(const1, const2) :=
    if (temp <? 0)%float then (272.186%float, 22.4433%float) else (const1, const2) in
  let hum := (hum / 100.0)%float in
  let hum := Log hum in
  let abs_temp := (temp / (const1 + temp))%float in
  let point :=
    ((const1 * hum + (const1 * const2) * abs_temp)
     / (const2 - hum - const2 * abs_temp))%float in
  let point := (Go.Round (point * 10) / 10)%float in
  point.

Definition calcAbsHum (hum temp : float) : float :=
  let abs :=
    (13.2471 * Exp (17.67 * temp / (temp + 243.5)) * hum / (273.15 + temp))%float in
  let abs := (Go.Round (abs * 10) / 1)%float in
  abs.

(** One iteration of the [range] loop: the record appended to [data] and
    the [http.Error] calls so far. *)
Definition loadSensor (mac : string) (config : Config) (errs : list (string * Z))
  : SensorData * list (string * Z) :=
  let q := Config_Db config in
  let errs :=
    if scan_err q
    then (errs ++ [("Data could not be loaded", StatusInternalServerError)])%list
    else errs in
  let humidity := (scan_humidity q / 100)%float in
  let temp := (scan_temp q / 100)%float in
  let icon := batteryIcon (scan_battery_level q) in
  let dewPoint := calcDewPoint humidity temp in
  let absHum := calcAbsHum humidity temp in
  let dewPointText := if (temp <? 0)%float then "Freezing point" else "Dew point" in
  let rel :=
    match Parse (scan_timestamp q) with
    | Some unix => timeRelative (Go.sub64 (Now mac) unix)
    | None => scan_timestamp q
    end in
  (mkSensorData temp humidity (scan_battery_mv q) (scan_battery_level q)
     (scan_timestamp q) dewPoint absHum icon dewPointText mac (Config_Loc config) rel,
   errs).

Fixpoint rangeLoop (configMap : ConfigMap) (data : list SensorData)
  (errs : list (string * Z)) : list SensorData * list (string * Z) :=
  match configMap with
  | [] => (data, errs)
  | (mac, config) :: rest =>
      let '(sensor, errs) := loadSensor mac config errs in
      rangeLoop rest (data ++ [sensor])%list errs
  end.

(** The template layer is outside the model: [executed] records the
    slice the handler passes to it. *)
Definition loadSensorData (configMap : ConfigMap) : Response :=
  let '(data, errs) := rangeLoop configMap [] [] in
  let data := Go.sort_Slice (fun a b => Go.string_lt (Mac a) (Mac b)) data in
  mkResponse errs data.

(** The dew point in the words of the specification. *)
Definition dewPoint_spec (h t : float) : float :=
  let '(a, b) :=
    if (t <? 0)%float then (272.186%float, 22.4433%float)
    else (241.2%float, 17.5043%float) in
  let hn := Log (h / 100.0)%float in
  let r := (t / (a + t))%float in
  let x := ((a * hn + a * b * r) / (b - hn - b * r))%float in
  (Go.Round (x * 10) / 10)%float.

End Handler.

(** The battery classes of the specification and the icon the handler
    uses for each of them. *)

Inductive BatteryClass : Type :=
  | CRITICAL | LOW | QUARTER | HALF | THREE_QUARTER | FULL.

Definition iconOf (c : BatteryClass) : string :=
  match c with
  | CRITICAL => "fa-battery-empty red"
  | LOW => "fa-battery-empty yellow"
  | QUARTER => "fa-battery-quarter"
  | HALF => "fa-battery-half"
  | THREE_QUARTER => "fa-battery-three-quarters"
  | FULL => "fa-battery-full green"
  end.

(** The band table of the specification, first match wins. *)
Definition classify_spec (percent : Z) : BatteryClass :=
  if percent <? 5 then CRITICAL
  else if percent <? 15 then LOW
  else if percent <? 35 then QUARTER
  else if percent <? 65 then HALF
  else if percent <? 85 then THREE_QUARTER
  else FULL.

(** The band of each class as an interval of percents. *)
Definition inBand (c : BatteryClass) (p : Z) : Prop :=
  match c with
  | CRITICAL => p < 5
  | LOW => 5 <= p < 15
  | QUARTER => 15 <= p < 35
  | HALF => 35 <= p < 65
  | THREE_QUARTER => 65 <= p < 85
  | FULL => 85 <= p
  end.

(** The freshness banding in the words of the specification: the bands are
    cut on [elapsedSeconds] itself, each count is a single division, and
    the unit word takes an "s" unless the count is 1. *)
Definition freshness_label (n : Z) (word ago : string) : string :=
  Go.fmt_d n ++ " " ++ word ++ (if n =? 1 then "" else "s") ++ ago.

Definition freshness_spec (elapsedSeconds : Z) : string :=
  if elapsedSeconds <? 60 then "Up to date"
  else if elapsedSeconds <? 3600 then
    freshness_label (Z.quot elapsedSeconds 60) "Minute" " ago"
  else if elapsedSeconds <? 86400 then
    freshness_label (Z.quot elapsedSeconds 3600) "Hour" " ago"
  else freshness_label (Z.quot elapsedSeconds 86400) "Day" "".

(** ** Whole numbers on binary64 and the grid of the sensor *)

(** The conversion of an integer to [float64]; it is exact up to 2^53. *)
Definition float_of_Z (z : Z) : float :=
  if z <? 0 then (- of_uint63 (Uint63.of_Z (- z)))%float
  else of_uint63 (Uint63.of_Z z).

(** A float that holds a whole number: an integer of magnitude at most
    2^53 converted to [float64], the negative zero, or [(-1)^s * m * 2^e]
    with [e >= 0]. *)
Definition wholeNumber (y : float) : Prop :=
  (exists k : Z, - 2 ^ 53 <= k <= 2 ^ 53 /\ (y = float_of_Z k \/ y = neg_zero)) \/
  (exists s m e, Prim2SF y = S754_finite s m e /\ 0 <= e).

Definition notFinite (y : float) : Prop :=
  y = nan \/ y = infinity \/ y = neg_infinity.


(** The formula of the specification for the absolute humidity, before it
    is rounded. *)
Definition absHum_spec (Exp : float -> float) (h t : float) : float :=
  (13.2471 * Exp (17.67 * t / (t + 243.5)) * h / (273.15 + t))%float.



(** ** An instance of the library parameters

    Used to run the handler on concrete inputs.  [Log] and [Exp] agree
    with [math.Log] and [math.Exp] on the special cases of their
    documentation and at [Log(1) = 0] and [Exp(0) = 1]; elsewhere they
    are low-order stand-ins, and no statement below depends on their
    value there.  [Parse] knows the timestamps of the examples; [Now] is
    2024-05-01T14:00:00Z. *)

Module Sample.

Definition Log (x : float) : float :=
  if is_nan x then nan
  else if (x <? 0)%float then nan
  else if (x =? 0)%float then neg_infinity
  else if is_infinity x then x
  else (x - 1)%float.

Definition Exp (x : float) : float :=
  if is_nan x then nan else (1 + x + x * x / 2)%float.

Definition Parse (s : string) : option Z :=
  if String.eqb s "2024-05-01T12:00:00Z" then Some 1714564800
  else if String.eqb s "2024-05-01T13:59:30Z" then Some 1714571970
  else if String.eqb s "2024-05-01T14:00:05Z" then Some 1714572005
  else None.

Definition Now (mac : string) : Z := 1714572000.

Definition loadSensorData : ConfigMap -> Response := loadSensorData Log Exp Parse Now.

(** Three devices: a good row, a row with humidity 0 and an empty
    timestamp, and a store whose query fails. *)
Definition good : Config :=
  mkConfig "Living room" (mkScan 2006 10000 2987 87 "2024-05-01T12:00:00Z" false).

Definition odd : Config :=
  mkConfig "Cellar" (mkScan (-506) 0 2410 4 "" false).

Definition broken : Config :=
  mkConfig "Attic" (mkScan 0 0 0 0 "" true).

Definition configMap : ConfigMap := [("b1", good); ("a2", odd); ("c0", broken)].

End Sample.

(** ** What the loop computes, entry by entry *)

Section Loop.

Variable Log : float -> float.
Variable Exp : float -> float.
Variable Parse : string -> option Z.
Variable Now : string -> Z.

(** The record of one device. *)
Definition reading (entry : string * Config) : SensorData :=
  fst (loadSensor Log Exp Parse Now (fst entry) (snd entry) []).

(** The devices whose fetch failed. *)
Definition failed (entry : string * Config) : bool := scan_err (Config_Db (snd entry)).

Definition loadError : string * Z := ("Data could not be loaded", StatusInternalServerError).

End Loop.

(** Turns an equation between floats into one between their [spec_float]
    values, with the operations replaced by their specifications. *)
Ltac by_spec :=
  apply Prim2SF_inj;
  rewrite ?add_spec, ?sub_spec, ?mul_spec, ?div_spec;
  unfold SF64add, SF64sub, SF64mul, SF64div, SFadd, SFsub, SFmul, SFdiv;
  change (Prim2SF nan) with S754_nan.

(** The order of the result: by [Mac], ascending. *)
Definition macLt (a b : SensorData) : Prop := Go.string_lt (Mac a) (Mac b) = true.

(** ** Start-up: the loop of [main] that opens the stores

    [configMap] as a map: a list of entries with pairwise distinct keys,
    read with [lookup] and written with [assign].  [sql_Open path] is
    [sql.Open("sqlite3", path)]: the handle, modelled as in [Config] by
    what the latest-row query on that file returns, or [None] when
    [err != nil].  [log.Fatalf] ends the process: the loop returns [None]. *)

Fixpoint lookup (mac : string) (configMap : ConfigMap) : option Config :=
  match configMap with
  | [] => None
  | (k, v) :: rest => if String.eqb k mac then Some v else lookup mac rest
  end.

(** [configMap[mac] = c]. *)
Fixpoint assign (mac : string) (c : Config) (configMap : ConfigMap) : ConfigMap :=
  match configMap with
  | [] => [(mac, c)]
  | (k, v) :: rest =>
      if String.eqb k mac then (k, c) :: rest else (k, v) :: assign mac c rest
  end.

(** [fmt.Sprintf("../logs/%s.db", mac)]. *)
Definition dbPath (mac : string) : string := "../logs/" ++ mac ++ ".db".

Section Startup.

Variable sql_Open : string -> option ScanResult.

(** The [range] loop of [main] over the keys in visiting order; the value
    of a key is read from the map as it is when the key is visited. *)
Fixpoint openStores (visit : list string) (configMap : ConfigMap) : option ConfigMap :=
  match visit with
  | [] => Some configMap
  | mac :: rest =>
      match lookup mac configMap with
      | None => openStores rest configMap
      | Some individualConfig =>
          match sql_Open (dbPath mac) with
          | None => None
          | Some db =>
              openStores rest
                (assign mac (mkConfig (Config_Loc individualConfig) db) configMap)
          end
      end
  end.

End Startup.

(** A configuration as [loadConfig] returns it, with no handle opened yet
    (the zero row stands for the missing handle), and a world in which the
    three database files open. *)

Module SampleStartup.

Definition unopened (loc : string) : Config := mkConfig loc (mkScan 0 0 0 0 "" false).

Definition configMap : ConfigMap :=
  [("b1", unopened "Living room"); ("a2", unopened "Cellar"); ("c0", unopened "Attic")].

Definition sql_Open (path : string) : option ScanResult :=
  if String.eqb path "../logs/b1.db" then Some (Config_Db Sample.good)
  else if String.eqb path "../logs/a2.db" then Some (Config_Db Sample.odd)
  else if String.eqb path "../logs/c0.db" then Some (Config_Db Sample.broken)
  else None.

End SampleStartup.

(** ** Battery classification *)

Lemma iconOf_inj (c d : BatteryClass) : iconOf c = iconOf d -> c = d.
Proof. destruct c, d; simpl; intros H; try reflexivity; discriminate H. Qed.

Lemma classify_spec_inBand (p : Z) : inBand (classify_spec p) p.
Proof.
  unfold classify_spec.
  repeat (match goal with
          | |- context [?a <? ?b] => destruct (Z.ltb_spec a b)
          end); simpl; lia.
Qed.

Lemma inBand_unique (c d : BatteryClass) (p : Z) :
  inBand c p -> inBand d p -> c = d.
Proof. destruct c, d; simpl; intros; try reflexivity; lia. Qed.

Lemma batteryIcon_classify (p : Z) : batteryIcon p = iconOf (classify_spec p).
Proof.
  unfold batteryIcon, classify_spec.
  repeat (match goal with
          | |- context [?a <? ?b] => destruct (a <? b)
          end); reflexivity.
Qed.

(** C4: on the percents 0..100 the icon chosen by the handler is the one of
    exactly one class, the first match of the band table read low to high,
    which is the class whose band holds the percent (bands cut at 5, 15,
    35, 65 and 85); 4 is CRITICAL, 5 LOW, 34 QUARTER and 35 HALF. *)
Theorem battery_partition :
  (forall p, 0 <= p <= 100 ->
     exists c, c = classify_spec p /\ batteryIcon p = iconOf c /\ inBand c p /\
       forall d, (batteryIcon p = iconOf d \/ inBand d p) -> d = c) /\
  batteryIcon 4 = iconOf CRITICAL /\ batteryIcon 5 = iconOf LOW /\
  batteryIcon 34 = iconOf QUARTER /\ batteryIcon 35 = iconOf HALF.
Proof.
  split; [| repeat split; reflexivity].
  intros p _. exists (classify_spec p).
  split; [reflexivity |].
  split; [apply batteryIcon_classify |].
  split; [apply classify_spec_inBand |].
  intros d [Hd | Hd].
  - apply iconOf_inj. rewrite <- Hd. apply batteryIcon_classify.
  - eapply inBand_unique; [exact Hd | apply classify_spec_inBand].
Qed.

Lemma battery_partition_witness :
  exists c, c = classify_spec 50 /\ batteryIcon 50 = iconOf c /\ inBand c 50 /\
    forall d, (batteryIcon 50 = iconOf d \/ inBand d 50) -> d = c.
Proof. apply (proj1 battery_partition 50). lia. Defined.

(** ** Freshness label *)

Lemma wrap64_id (z : Z) : Go.int64 z -> Go.wrap64 z = z.
Proof.
  unfold Go.int64, Go.wrap64. intros H.
  rewrite Z.mod_small by lia. lia.
Qed.

Lemma sub64_exact (a b : Z) :
  - 2 ^ 62 <= a < 2 ^ 62 -> - 2 ^ 62 <= b < 2 ^ 62 -> Go.sub64 a b = a - b.
Proof.
  intros Ha Hb. unfold Go.sub64. apply wrap64_id. unfold Go.int64. lia.
Qed.

Lemma quot_lt_band (s k b : Z) :
  0 <= s -> 0 < k -> 0 < b -> (Z.quot s k <? b) = (s <? k * b).
Proof.
  intros Hs Hk Hb. rewrite Z.quot_div_nonneg by lia.
  pose proof (Z.mul_div_le s k Hk) as Hlo.
  pose proof (Z.mul_succ_div_gt s k Hk) as Hhi.
  destruct (Z.ltb_spec (s / k) b) as [H | H]; symmetry.
  - apply Z.ltb_lt. nia.
  - apply Z.ltb_ge. nia.
Qed.

Lemma plural_label (n : Z) (word ago : string) :
  Go.fmt_d n ++ (" " ++ word) ++ plural n "s" ++ ago = freshness_label n word ago.
Proof.
  unfold freshness_label, plural. f_equal.
Qed.

Lemma timeRelative_freshness (s : Z) : timeRelative s = freshness_spec s.
Proof.
  unfold timeRelative, freshness_spec.
  destruct (Z.ltb_spec s 60) as [H | H]; [reflexivity |].
  rewrite (Z.quot_quot s 60 60) by lia.
  rewrite (Z.quot_quot s (60 * 60) 24) by lia.
  rewrite (quot_lt_band s 60 60) by lia.
  rewrite (quot_lt_band s (60 * 60) 24) by lia.
  change (60 * 60) with 3600. change (3600 * 24) with 86400.
  destruct (s <? 3600); [apply (plural_label _ "Minute" " ago") |].
  destruct (s <? 86400); [apply (plural_label _ "Hour" " ago") |].
  rewrite <- (plural_label _ "Day" ""). simpl.
  unfold plural. destruct (_ =? 1); reflexivity.
Qed.

(** C5: for every elapsed time in seconds the label built by the handler
    is the one of the banding read in order (below 60 "Up to date", below
    3600 the minutes, below 86400 the hours, else the days without "ago"),
    each count one truncated division of the seconds, the unit word with
    an "s" unless the count is 1; 59, 60, 119, 120, 3600 and 86400 seconds
    give the labels listed. *)
Theorem freshness_banding :
  (forall elapsedSeconds, 0 <= elapsedSeconds ->
     timeRelative elapsedSeconds = freshness_spec elapsedSeconds) /\
  (forall n, plural n "s" = if n =? 1 then "" else "s") /\
  timeRelative 0 = "Up to date" /\
  timeRelative 59 = "Up to date" /\
  timeRelative 60 = "1 Minute ago" /\
  timeRelative 119 = "1 Minute ago" /\
  timeRelative 120 = "2 Minutes ago" /\
  timeRelative 3600 = "1 Hour ago" /\
  timeRelative 86400 = "1 Day".
Proof.
  split; [intros s _; apply timeRelative_freshness |].
  split; [reflexivity |].
  repeat split; vm_compute; reflexivity.
Qed.

Lemma freshness_banding_witness :
  timeRelative 7200 = freshness_spec 7200 /\ freshness_spec 7200 = "2 Hours ago".
Proof.
  split; [apply (proj1 freshness_banding 7200); lia | vm_compute; reflexivity].
Defined.

Lemma timeRelative_negative (diff_seconds : Z) :
  diff_seconds < 0 -> timeRelative diff_seconds = "Up to date".
Proof.
  intros H. unfold timeRelative.
  destruct (Z.ltb_spec diff_seconds 60) as [_ | H']; [reflexivity | lia].
Qed.

(** ** The loop *)

Section LoopFacts.

Variable Log : float -> float.
Variable Exp : float -> float.
Variable Parse : string -> option Z.
Variable Now : string -> Z.

Lemma loadSensor_eq (mac : string) (config : Config) (errs : list (string * Z)) :
  loadSensor Log Exp Parse Now mac config errs =
  (reading Log Exp Parse Now (mac, config),
   (errs ++ if failed (mac, config) then [loadError] else [])%list).
Proof.
  unfold reading, loadSensor, failed. simpl.
  destruct (scan_err (Config_Db config)); simpl.
  - reflexivity.
  - rewrite app_nil_r. reflexivity.
Qed.

Lemma rangeLoop_eq (configMap : ConfigMap) :
  forall data errs,
    rangeLoop Log Exp Parse Now configMap data errs =
    ((data ++ map (reading Log Exp Parse Now) configMap)%list,
     (errs ++ map (fun _ => loadError) (filter failed configMap))%list).
Proof.
  induction configMap as [| [mac config] rest IH]; intros data errs.
  - simpl. rewrite !app_nil_r. reflexivity.
  - cbn [rangeLoop]. rewrite loadSensor_eq, IH.
    cbn [map filter]. rewrite <- !app_assoc.
    destruct (failed (mac, config)); reflexivity.
Qed.

Lemma loadSensorData_eq (configMap : ConfigMap) :
  loadSensorData Log Exp Parse Now configMap =
  mkResponse (map (fun _ => loadError) (filter failed configMap))
    (Go.sort_Slice (fun a b => Go.string_lt (Mac a) (Mac b))
       (map (reading Log Exp Parse Now) configMap)).
Proof.
  unfold loadSensorData. rewrite rangeLoop_eq. reflexivity.
Qed.

Lemma Mac_reading (entry : string * Config) :
  Mac (reading Log Exp Parse Now entry) = fst entry.
Proof. reflexivity. Qed.

Lemma TimeRelative_reading (entry : string * Config) :
  TimeRelative (reading Log Exp Parse Now entry) =
  match Parse (scan_timestamp (Config_Db (snd entry))) with
  | Some unix => timeRelative (Go.sub64 (Now (fst entry)) unix)
  | None => scan_timestamp (Config_Db (snd entry))
  end.
Proof. reflexivity. Qed.

End LoopFacts.

(** ** Sorting *)

Section Insertion.

Variable A : Type.
Variable less : A -> A -> bool.

Lemma insert_perm (x : A) (l : list A) : Permutation (Go.insert less x l) (x :: l).
Proof.
  induction l as [| y l IH]; simpl.
  - apply Permutation_refl.
  - destruct (less y x).
    + eapply perm_trans; [apply perm_skip, IH | apply perm_swap].
    + apply Permutation_refl.
Qed.

Lemma sort_Slice_perm (l : list A) : Permutation (Go.sort_Slice less l) l.
Proof.
  induction l as [| x l IH]; simpl.
  - apply perm_nil.
  - eapply perm_trans; [apply insert_perm | apply perm_skip, IH].
Qed.

Hypothesis less_trans : forall a b c, less a b = true -> less b c = true -> less a c = true.

(** Inserting into a strictly sorted list an element comparable with
    each of its members keeps it strictly sorted. *)
Lemma insert_sorted (x : A) (l : list A) :
  StronglySorted (fun a b => less a b = true) l ->
  Forall (fun y => less x y = true \/ less y x = true) l ->
  StronglySorted (fun a b => less a b = true) (Go.insert less x l).
Proof.
  induction l as [| y l IH]; intros Hs Hc; simpl.
  - constructor; constructor.
  - apply StronglySorted_inv in Hs. destruct Hs as [Hs Hy].
    apply Forall_cons_iff in Hc. destruct Hc as [Hxy Hc].
    destruct (less y x) eqn:E.
    + constructor; [apply IH; assumption |].
      apply (Permutation_Forall (Permutation_sym (insert_perm x l))).
      constructor; assumption.
    + destruct Hxy as [Hxy | Hxy]; [| congruence].
      constructor; [constructor; assumption |].
      constructor; [exact Hxy |].
      apply (Forall_impl _ (fun z Hz => less_trans x y z Hxy Hz) Hy).
Qed.

Lemma sort_Slice_sorted (l : list A) :
  ForallOrdPairs (fun a b => less a b = true \/ less b a = true) l ->
  StronglySorted (fun a b => less a b = true) (Go.sort_Slice less l).
Proof.
  induction 1 as [| x l Hx Hl IH]; simpl.
  - constructor.
  - apply insert_sorted; [exact IH |].
    apply (Permutation_Forall (Permutation_sym (sort_Slice_perm l))). exact Hx.
Qed.

Hypothesis less_irrefl : forall a, less a a = false.

(** A strictly sorted list is determined by its elements. *)
Lemma sorted_perm_unique (l1 : list A) :
  forall l2,
    StronglySorted (fun a b => less a b = true) l1 ->
    StronglySorted (fun a b => less a b = true) l2 ->
    Permutation l1 l2 -> l1 = l2.
Proof.
  induction l1 as [| x l1 IH]; intros l2 H1 H2 Hp.
  - apply Permutation_nil in Hp. symmetry. exact Hp.
  - destruct l2 as [| y l2].
    { apply Permutation_sym, Permutation_nil in Hp. discriminate Hp. }
    apply StronglySorted_inv in H1. destruct H1 as [H1 Hx].
    apply StronglySorted_inv in H2. destruct H2 as [H2 Hy].
    assert (Exy : x = y).
    { assert (Ix : In x (y :: l2)) by (apply (Permutation_in _ Hp); left; reflexivity).
      assert (Iy : In y (x :: l1))
        by (apply (Permutation_in _ (Permutation_sym Hp)); left; reflexivity).
      destruct Ix as [E | Ix]; [symmetry; exact E |].
      destruct Iy as [E | Iy]; [exact E |].
      rewrite Forall_forall in Hx, Hy.
      pose proof (less_trans _ _ _ (Hx _ Iy) (Hy _ Ix)) as Hxx.
      rewrite less_irrefl in Hxx. discriminate Hxx. }
    subst y. f_equal. apply IH; try assumption.
    apply (Permutation_cons_inv Hp).
Qed.

End Insertion.

(** ** The order on device identifiers *)

Lemma ascii_compare_refl (a : ascii) : Ascii.compare a a = Eq.
Proof. unfold Ascii.compare. apply N.compare_refl. Qed.

Lemma ascii_compare_lt_trans (a b c : ascii) :
  Ascii.compare a b = Lt -> Ascii.compare b c = Lt -> Ascii.compare a c = Lt.
Proof.
  unfold Ascii.compare. rewrite !N.compare_lt_iff. apply N.lt_trans.
Qed.

Lemma string_compare_refl (s : string) : String.compare s s = Eq.
Proof.
  induction s as [| a s IH]; simpl; [reflexivity |].
  rewrite ascii_compare_refl. exact IH.
Qed.

Lemma string_compare_lt_trans (s : string) :
  forall t u, String.compare s t = Lt -> String.compare t u = Lt -> String.compare s u = Lt.
Proof.
  induction s as [| a s IH]; intros [| b t] [| c u]; simpl; try congruence.
  destruct (Ascii.compare a b) eqn:Eab; try discriminate;
    destruct (Ascii.compare b c) eqn:Ebc; try discriminate; intros H1 H2.
  - apply Ascii.compare_eq_iff in Eab, Ebc. subst.
    rewrite ascii_compare_refl. eapply IH; eassumption.
  - apply Ascii.compare_eq_iff in Eab. subst. rewrite Ebc. reflexivity.
  - apply Ascii.compare_eq_iff in Ebc. subst. rewrite Eab. reflexivity.
  - rewrite (ascii_compare_lt_trans _ _ _ Eab Ebc). reflexivity.
Qed.

Lemma string_lt_compare (s t : string) :
  Go.string_lt s t = true <-> String.compare s t = Lt.
Proof.
  unfold Go.string_lt, String.ltb. destruct (String.compare s t); split; congruence.
Qed.

Lemma string_lt_irrefl (s : string) : Go.string_lt s s = false.
Proof.
  unfold Go.string_lt, String.ltb. rewrite string_compare_refl. reflexivity.
Qed.

Lemma string_lt_trans (s t u : string) :
  Go.string_lt s t = true -> Go.string_lt t u = true -> Go.string_lt s u = true.
Proof.
  rewrite !string_lt_compare. apply string_compare_lt_trans.
Qed.

Lemma string_lt_total (s t : string) :
  s <> t -> Go.string_lt s t = true \/ Go.string_lt t s = true.
Proof.
  intros Hne. rewrite !string_lt_compare.
  rewrite (String.compare_antisym t s).
  destruct (String.compare s t) eqn:E; simpl; auto.
  apply String.compare_eq_iff in E. contradiction.
Qed.

(** Records with pairwise distinct [Mac] are pairwise comparable. *)
Lemma distinct_macs_comparable (l : list SensorData) :
  NoDup (map Mac l) ->
  ForallOrdPairs
    (fun a b => Go.string_lt (Mac a) (Mac b) = true \/ Go.string_lt (Mac b) (Mac a) = true) l.
Proof.
  induction l as [| x l IH]; simpl; intros Hnd.
  - constructor.
  - apply NoDup_cons_iff in Hnd. destruct Hnd as [Hx Hnd].
    constructor; [| apply IH; exact Hnd].
    apply Forall_forall. intros y Hy. apply string_lt_total.
    intros E. apply Hx. rewrite E. apply in_map. exact Hy.
Qed.

(** ** The assembled result set *)

Section ResultSet.

Variable Log : float -> float.
Variable Exp : float -> float.
Variable Parse : string -> option Z.
Variable Now : string -> Z.

Lemma executed_perm (configMap : ConfigMap) :
  Permutation (executed (loadSensorData Log Exp Parse Now configMap))
    (map (reading Log Exp Parse Now) configMap).
Proof.
  rewrite loadSensorData_eq. simpl. apply sort_Slice_perm.
Qed.

Lemma executed_macs (configMap : ConfigMap) :
  Permutation (map Mac (executed (loadSensorData Log Exp Parse Now configMap)))
    (map fst configMap).
Proof.
  eapply perm_trans; [apply Permutation_map, executed_perm |].
  rewrite map_map. apply Permutation_refl.
Qed.

Lemma executed_sorted (configMap : ConfigMap) :
  wellFormed configMap ->
  StronglySorted macLt (executed (loadSensorData Log Exp Parse Now configMap)).
Proof.
  intros Hwf. rewrite loadSensorData_eq. simpl.
  apply (sort_Slice_sorted SensorData (fun a b => Go.string_lt (Mac a) (Mac b))).
  - intros a b c. apply string_lt_trans.
  - apply distinct_macs_comparable. rewrite map_map. exact Hwf.
Qed.

Lemma executed_order_independent (configMap configMap' : ConfigMap) :
  wellFormed configMap -> Permutation configMap configMap' ->
  executed (loadSensorData Log Exp Parse Now configMap') =
  executed (loadSensorData Log Exp Parse Now configMap).
Proof.
  intros Hwf Hp.
  assert (Hwf' : wellFormed configMap').
  { unfold wellFormed in *. eapply Permutation_NoDup; [| exact Hwf].
    apply Permutation_map. exact Hp. }
  apply (sorted_perm_unique SensorData (fun a b => Go.string_lt (Mac a) (Mac b))).
  - intros a b c. apply string_lt_trans.
  - intros a. apply string_lt_irrefl.
  - apply executed_sorted. exact Hwf'.
  - apply executed_sorted. exact Hwf.
  - eapply perm_trans; [apply executed_perm |].
    eapply perm_trans; [| apply Permutation_sym, executed_perm].
    apply Permutation_map, Permutation_sym. exact Hp.
Qed.

End ResultSet.

(** C6: whatever order the loop visits the configured devices in, the
    slice handed to the template is sorted by [Mac] ascending in byte
    order, holds one record per device, and is the same slice as for any
    other visiting order. *)
Theorem result_set_sorted (Log Exp : float -> float) (Parse : string -> option Z)
  (Now : string -> Z) (configMap visited : ConfigMap) :
  wellFormed configMap -> Permutation configMap visited ->
  StronglySorted macLt (executed (loadSensorData Log Exp Parse Now visited)) /\
  Permutation (map Mac (executed (loadSensorData Log Exp Parse Now visited)))
    (map fst configMap) /\
  executed (loadSensorData Log Exp Parse Now visited) =
  executed (loadSensorData Log Exp Parse Now configMap).
Proof.
  intros Hwf Hp.
  assert (Hwf' : wellFormed visited).
  { unfold wellFormed in *. eapply Permutation_NoDup; [| exact Hwf].
    apply Permutation_map. exact Hp. }
  split; [apply executed_sorted; exact Hwf' |].
  split; [| apply executed_order_independent; assumption].
  eapply perm_trans; [apply executed_macs |].
  apply Permutation_map, Permutation_sym. exact Hp.
Qed.

Lemma sample_wellFormed : wellFormed Sample.configMap.
Proof.
  unfold wellFormed. simpl.
  repeat constructor; simpl; intuition discriminate.
Qed.

Lemma sample_visited :
  Permutation Sample.configMap
    [("c0", Sample.broken); ("b1", Sample.good); ("a2", Sample.odd)].
Proof.
  unfold Sample.configMap.
  eapply perm_trans; [apply perm_skip, perm_swap |].
  eapply perm_trans; [apply perm_swap |].
  apply perm_skip, Permutation_refl.
Qed.

(** The devices "b1", "a2", "c0" of the specification, visited as
    "c0", "b1", "a2": the output order is "a2", "b1", "c0". *)
Lemma result_set_sorted_witness :
  (StronglySorted macLt
     (executed (Sample.loadSensorData
        [("c0", Sample.broken); ("b1", Sample.good); ("a2", Sample.odd)])) /\
   Permutation
     (map Mac (executed (Sample.loadSensorData
        [("c0", Sample.broken); ("b1", Sample.good); ("a2", Sample.odd)])))
     (map fst Sample.configMap) /\
   executed (Sample.loadSensorData
        [("c0", Sample.broken); ("b1", Sample.good); ("a2", Sample.odd)]) =
   executed (Sample.loadSensorData Sample.configMap)) /\
  map Mac (executed (Sample.loadSensorData Sample.configMap)) = ["a2"; "b1"; "c0"].
Proof.
  split.
  - exact (result_set_sorted Sample.Log Sample.Exp Sample.Parse Sample.Now
             Sample.configMap _ sample_wellFormed sample_visited).
  - vm_compute. reflexivity.
Defined.

(** ** Fetch failures *)

(** C3, as the claim states it, fails on one device whose store cannot be
    read: the handler reports "Data could not be loaded", a text that does
    not hold the identifier "c0", and goes on to hand a record for "c0" to
    the template. *)
Lemma fetch_failure_not_atomic :
  httpErrors (Sample.loadSensorData [("c0", Sample.broken)]) =
    [("Data could not be loaded", 500)] /\
  String.index 0 "c0" "Data could not be loaded" = None /\
  map Mac (executed (Sample.loadSensorData [("c0", Sample.broken)])) = ["c0"].
Proof. repeat split; vm_compute; reflexivity. Qed.

(** C3, amended: every failed fetch is reported, by the same message and
    status whichever device it is; when no fetch fails nothing is reported
    and the result holds exactly one record per configured device; no
    record is missing from the result without a report. *)
Theorem fetch_failure_signal (Log Exp : float -> float) (Parse : string -> option Z)
  (Now : string -> Z) (configMap : ConfigMap) :
  ((exists entry, In entry configMap /\ failed entry = true) ->
     httpErrors (loadSensorData Log Exp Parse Now configMap) <> [] /\
     Forall (eq ("Data could not be loaded", StatusInternalServerError))
       (httpErrors (loadSensorData Log Exp Parse Now configMap))) /\
  ((forall entry, In entry configMap -> failed entry = false) ->
     httpErrors (loadSensorData Log Exp Parse Now configMap) = [] /\
     Permutation (map Mac (executed (loadSensorData Log Exp Parse Now configMap)))
       (map fst configMap)) /\
  (httpErrors (loadSensorData Log Exp Parse Now configMap) = [] ->
     Permutation (map Mac (executed (loadSensorData Log Exp Parse Now configMap)))
       (map fst configMap)).
Proof.
  split; [| split; [| intros _; apply executed_macs]];
    rewrite loadSensorData_eq; cbn [httpErrors].
  - intros [entry [Hin Hf]]. split.
    + assert (Hin' : In entry (filter failed configMap))
        by (apply filter_In; split; assumption).
      destruct (filter failed configMap); [contradiction | discriminate].
    + apply Forall_forall. intros e He. apply in_map_iff in He.
      destruct He as [x [Hx _]]. exact Hx.
  - intros Hok. split.
    + replace (filter failed configMap) with (@nil (string * Config)); [reflexivity |].
      symmetry. induction configMap as [| e l IH]; [reflexivity |].
      simpl. rewrite (Hok e) by (left; reflexivity).
      apply IH. intros x Hx. apply Hok. right. exact Hx.
    + rewrite <- loadSensorData_eq. apply executed_macs.
Qed.

(** The three sample devices, of which "c0" fails, and the two that load. *)
Lemma fetch_failure_signal_witness :
  (httpErrors (Sample.loadSensorData Sample.configMap) <> [] /\
   Forall (eq ("Data could not be loaded", StatusInternalServerError))
     (httpErrors (Sample.loadSensorData Sample.configMap))) /\
  (httpErrors (Sample.loadSensorData [("b1", Sample.good); ("a2", Sample.odd)]) = [] /\
   Permutation
     (map Mac (executed (Sample.loadSensorData [("b1", Sample.good); ("a2", Sample.odd)])))
     ["b1"; "a2"]).
Proof.
  split.
  - apply (proj1 (fetch_failure_signal Sample.Log Sample.Exp Sample.Parse Sample.Now
                    Sample.configMap)).
    exists ("c0", Sample.broken). split; [simpl; auto | reflexivity].
  - apply (proj1 (proj2 (fetch_failure_signal Sample.Log Sample.Exp Sample.Parse
                           Sample.Now [("b1", Sample.good); ("a2", Sample.odd)]))).
    intros entry [E | [E | []]]; subst entry; reflexivity.
Defined.

(** ** Timestamps *)

(** C9: a record whose stored timestamp [time.Parse] rejects carries that
    stored string, unchanged, both as its timestamp and as its relative
    time, and is in the result; the rejection adds no [http.Error]: the
    reported failures are the failed fetches alone. *)
Theorem unparsable_timestamp_verbatim (Log Exp : float -> float)
  (Parse : string -> option Z) (Now : string -> Z) (configMap : ConfigMap)
  (entry : string * Config) :
  In entry configMap ->
  Parse (scan_timestamp (Config_Db (snd entry))) = None ->
  (exists sensor,
     In sensor (executed (loadSensorData Log Exp Parse Now configMap)) /\
     Mac sensor = fst entry /\
     Timestamp sensor = scan_timestamp (Config_Db (snd entry)) /\
     TimeRelative sensor = scan_timestamp (Config_Db (snd entry))) /\
  httpErrors (loadSensorData Log Exp Parse Now configMap) =
    map (fun _ => loadError) (filter failed configMap).
Proof.
  intros Hin Hparse. split; [| rewrite loadSensorData_eq; reflexivity].
  exists (reading Log Exp Parse Now entry). split; [| split; [| split]].
  - apply (Permutation_in _ (Permutation_sym (executed_perm Log Exp Parse Now configMap))).
    apply in_map. exact Hin.
  - reflexivity.
  - reflexivity.
  - rewrite TimeRelative_reading, Hparse. reflexivity.
Qed.

(** A timestamp without the "T" and the offset, and the empty one. *)
Lemma unparsable_timestamp_verbatim_witness :
  ((exists sensor,
      In sensor (executed (Sample.loadSensorData
         [("b1", mkConfig "Living room"
                   (mkScan 2006 10000 2987 87 "2024-05-01 12:00" false));
          ("a2", Sample.odd)])) /\
      Mac sensor = "b1" /\
      Timestamp sensor = "2024-05-01 12:00" /\
      TimeRelative sensor = "2024-05-01 12:00") /\
   httpErrors (Sample.loadSensorData
         [("b1", mkConfig "Living room"
                   (mkScan 2006 10000 2987 87 "2024-05-01 12:00" false));
          ("a2", Sample.odd)]) = []) /\
  TimeRelative (reading Sample.Log Sample.Exp Sample.Parse Sample.Now ("a2", Sample.odd)) = "".
Proof.
  split; [| reflexivity].
  apply (unparsable_timestamp_verbatim Sample.Log Sample.Exp Sample.Parse Sample.Now
           [("b1", mkConfig "Living room"
                     (mkScan 2006 10000 2987 87 "2024-05-01 12:00" false));
            ("a2", Sample.odd)]
           ("b1", mkConfig "Living room"
                    (mkScan 2006 10000 2987 87 "2024-05-01 12:00" false))).
  - left. reflexivity.
  - reflexivity.
Defined.

(** C10: when the timestamp parses and lies ahead of the clock, so that
    the signed difference in seconds is negative, the relative time of the
    record is "Up to date". *)
Theorem future_timestamp_up_to_date (Log Exp : float -> float)
  (Parse : string -> option Z) (Now : string -> Z) (entry : string * Config)
  (unix : Z) :
  Parse (scan_timestamp (Config_Db (snd entry))) = Some unix ->
  Go.sub64 (Now (fst entry)) unix < 0 ->
  TimeRelative (reading Log Exp Parse Now entry) = "Up to date".
Proof.
  intros Hparse Hneg. rewrite TimeRelative_reading, Hparse.
  apply timeRelative_negative. exact Hneg.
Qed.

(** A timestamp five seconds ahead of the clock. *)
Lemma future_timestamp_up_to_date_witness :
  TimeRelative
    (reading Sample.Log Sample.Exp Sample.Parse Sample.Now
       ("b1", mkConfig "Living room"
                (mkScan 2006 10000 2987 87 "2024-05-01T14:00:05Z" false))) =
  "Up to date".
Proof.
  apply (future_timestamp_up_to_date _ _ _ _ _ 1714572005).
  - reflexivity.
  - vm_compute. reflexivity.
Defined.

(** ** Binary64 facts *)

Lemma nearestUp_nearest (m d : Z) :
  0 < d ->
  2 * Z.abs (Go.nearestUp m d * d - m) <= d /\
  (2 * Z.abs (Go.nearestUp m d * d - m) = d -> m < Go.nearestUp m d * d).
Proof.
  intros Hd. unfold Go.nearestUp.
  pose proof (Z.div_mod m d) as Hdm.
  pose proof (Z.mod_pos_bound m d Hd) as Hr.
  destruct (Z.leb_spec d (2 * (m mod d))); split; nia.
Qed.

Lemma Round_ties :
  Go.Round 0.5 = 1%float /\ Go.Round (-0.5) = (-1)%float /\
  Go.Round 2.5 = 3%float /\ Go.Round (-2.5) = (-3)%float /\
  Go.Round 0.25 = 0%float /\ Go.Round (-0.25) = neg_zero /\
  Go.Round nan = nan /\ Go.Round infinity = infinity /\
  Go.Round neg_infinity = neg_infinity.
Proof. repeat split; vm_compute; reflexivity. Qed.

Lemma add_nan_l (y : float) : (nan + y = nan)%float.
Proof. by_spec. reflexivity. Qed.

Lemma mul_nan_r (x : float) : (x * nan = nan)%float.
Proof. by_spec. destruct (Prim2SF x); reflexivity. Qed.

Lemma div_nan_l (y : float) : (nan / y = nan)%float.
Proof. by_spec. reflexivity. Qed.

Lemma div_nan_r (x : float) : (x / nan = nan)%float.
Proof. by_spec. destruct (Prim2SF x); reflexivity. Qed.

Lemma neg_infinity_add (y : float) :
  (neg_infinity + y = neg_infinity \/ neg_infinity + y = nan)%float.
Proof.
  destruct (Prim2SF y) as [s | s | | s m e] eqn:E.
  1, 4: left; by_spec; rewrite E; reflexivity.
  - destruct s; [left | right]; by_spec; rewrite E; reflexivity.
  - right. by_spec. rewrite E. reflexivity.
Qed.

Lemma infinity_sub (y : float) :
  (infinity - y = infinity \/ infinity - y = nan)%float.
Proof.
  destruct (Prim2SF y) as [s | s | | s m e] eqn:E.
  1, 4: left; by_spec; rewrite E; reflexivity.
  - destruct s; [left | right]; by_spec; rewrite E; reflexivity.
  - right. by_spec. rewrite E. reflexivity.
Qed.

(** Rounding the result of an operation keeps the sign it was given. *)
Lemma binary_round_aux_sign (s : bool) (m e : Z) (l : location) :
  match binary_round_aux prec emax s m e l with
  | S754_zero s' | S754_infinity s' | S754_finite s' _ _ => s' = s
  | S754_nan => True
  end.
Proof.
  unfold binary_round_aux.
  destruct (shr_fexp prec emax m e l) as [mrs' e'].
  destruct (shr_fexp prec emax _ e' loc_Exact) as [mrs'' e''].
  destruct (shr_m mrs''); [reflexivity | | exact I].
  destruct (Z.leb e'' (emax - prec)); reflexivity.
Qed.

Lemma SFdiv_negative (m : positive) (e : Z) (m2 : positive) (e2 : Z) :
  match SF64div (S754_finite true m e) (S754_finite false m2 e2) with
  | S754_zero s | S754_infinity s | S754_finite s _ _ => s = true
  | S754_nan => True
  end.
Proof.
  unfold SF64div, SFdiv.
  destruct (SFdiv_core_binary prec emax (Z.pos m) e (Z.pos m2) e2) as [[mz ez] lz].
  apply (binary_round_aux_sign (xorb true false)).
Qed.

(** A float that is not above zero, divided by 100, is below zero, a zero
    or not a number. *)
Lemma div_100_nonpos (h : float) :
  (h <=? 0)%float = true ->
  (h / 100 <? 0)%float = true \/ (h / 100 = 0 \/ h / 100 = neg_zero \/ h / 100 = nan)%float.
Proof.
  rewrite leb_spec, ltb_spec. intros H.
  pose proof (div_spec h 100) as Hd.
  change (Prim2SF 100) with (S754_finite false 7036874417766400 (-46)) in Hd.
  change (Prim2SF 0) with (S754_zero false) in *.
  destruct (Prim2SF h) as [s | s | | s m e] eqn:E.
  - right. destruct s; [right; left | left]; apply Prim2SF_inj; rewrite Hd; reflexivity.
  - destruct s; [| discriminate H]. left. rewrite Hd. reflexivity.
  - discriminate H.
  - destruct s; [| discriminate H].
    pose proof (SFdiv_negative m e 7036874417766400 (-46)) as Hs.
    rewrite <- Hd in Hs.
    destruct (Prim2SF (h / 100)) as [s | s | | s m' e'] eqn:Er; try subst s.
    + right. right. left. apply Prim2SF_inj. rewrite Er. reflexivity.
    + left. reflexivity.
    + right. right. right. apply Prim2SF_inj. rewrite Er. reflexivity.
    + left. reflexivity.
Qed.

(** The quotient of [calcDewPoint] when the logarithm is not a number or
    minus infinity. *)
Lemma point_nan (c1 c12 c2 r hn : float) :
  hn = nan \/ hn = neg_infinity ->
  (c1 * neg_infinity = neg_infinity)%float ->
  (c2 - neg_infinity = infinity)%float ->
  ((c1 * hn + c12 * r) / (c2 - hn - c2 * r) = nan)%float.
Proof.
  intros [E | E] H1 H2; subst hn.
  - rewrite mul_nan_r, add_nan_l. apply div_nan_l.
  - rewrite H1, H2.
    destruct (neg_infinity_add (c12 * r)) as [En | En]; rewrite En;
      destruct (infinity_sub (c2 * r)) as [Ed | Ed]; rewrite Ed;
      first [reflexivity | apply div_nan_l | apply div_nan_r].
Qed.

(** ** Dew point *)

(** C1: [calcDewPoint] is the formula of the specification: the constants
    picked by the sign of [t], [hn = ln (h / 100.0)], [r = t / (a + t)],
    the quotient [(a*hn + a*b*r) / (b - hn - b*r)], and [Round (x * 10) / 10]
    with [Round] taking halves away from zero. *)
Theorem calcDewPoint_formula (Log : float -> float) (h t : float) :
  calcDewPoint Log h t = dewPoint_spec Log h t /\
  Go.Round 0.5 = 1%float /\ Go.Round (-0.5) = (-1)%float /\
  Go.Round 2.5 = 3%float /\ Go.Round (-2.5) = (-3)%float.
Proof.
  split.
  - unfold calcDewPoint, dewPoint_spec. destruct (t <? 0)%float; reflexivity.
  - repeat split; vm_compute; reflexivity.
Qed.

Section SpecialValues.

Variable Log : float -> float.

(** The special cases in the documentation of [math.Log]. *)
Hypothesis Log_nan : Log nan = nan.
Hypothesis Log_negative : forall x, (x <? 0)%float = true -> Log x = nan.
Hypothesis Log_zero : Log 0%float = neg_infinity.
Hypothesis Log_neg_zero : Log neg_zero = neg_infinity.

Lemma Log_div_100_nonpos (h : float) :
  (h <=? 0)%float = true ->
  Log (h / 100)%float = nan \/ Log (h / 100)%float = neg_infinity.
Proof.
  intros H. destruct (div_100_nonpos h H) as [E | [E | [E | E]]].
  - left. apply Log_negative. exact E.
  - right. rewrite E. exact Log_zero.
  - right. rewrite E. exact Log_neg_zero.
  - left. rewrite E. exact Log_nan.
Qed.

(** With a humidity that is not above zero the dew point is not a number,
    whatever the temperature. *)
Lemma calcDewPoint_nonpos (h t : float) :
  (h <=? 0)%float = true -> calcDewPoint Log h t = nan.
Proof.
  intros H. unfold calcDewPoint.
  pose proof (Log_div_100_nonpos h H) as Hl.
  destruct (t <? 0)%float; cbv zeta; cbv beta iota;
    rewrite point_nan; solve [reflexivity | exact Hl].
Qed.

End SpecialValues.


(** A binary64 run: at 50 % and 0 degrees [calcAbsHum] returns 24, for
    every [math.Exp] with [Exp(0) = 1]; the formula itself gives 2.42. *)
Lemma calcAbsHum_50_0 (Exp : float -> float) :
  Exp 0%float = 1%float -> calcAbsHum Exp 50 0 = 24%float.
Proof.
  intros H. unfold calcAbsHum. cbv zeta.
  change (17.67 * 0 / (0 + 243.5))%float with 0%float. rewrite H.
  vm_compute. reflexivity.
Qed.

(** ** Humidity that is not above zero *)

(** C8, as the claim states it, fails on the device "a2", whose stored
    humidity is 0: nothing is reported and the template receives a record
    for "a2", with a dew point that is not a number. *)
Lemma nonpositive_humidity_not_rejected :
  httpErrors (Sample.loadSensorData [("a2", Sample.odd)]) = [] /\
  map Mac (executed (Sample.loadSensorData [("a2", Sample.odd)])) = ["a2"] /\
  map Humidity (executed (Sample.loadSensorData [("a2", Sample.odd)])) = [0%float] /\
  map DewPoint (executed (Sample.loadSensorData [("a2", Sample.odd)])) = [nan].
Proof. repeat split; vm_compute; reflexivity. Qed.

(** C8, amended: a device whose humidity is not above zero still gets its
    record in the result, with a dew point that is not a number, and is
    not reported: the reported failures are the failed fetches alone. *)
Theorem nonpositive_humidity_reading (Log Exp : float -> float)
  (Parse : string -> option Z) (Now : string -> Z)
  (Log_nan : Log nan = nan)
  (Log_negative : forall x, (x <? 0)%float = true -> Log x = nan)
  (Log_zero : Log 0%float = neg_infinity)
  (Log_neg_zero : Log neg_zero = neg_infinity)
  (configMap : ConfigMap) (entry : string * Config) :
  In entry configMap ->
  (Humidity (reading Log Exp Parse Now entry) <=? 0)%float = true ->
  In (reading Log Exp Parse Now entry)
     (executed (loadSensorData Log Exp Parse Now configMap)) /\
  DewPoint (reading Log Exp Parse Now entry) = nan /\
  httpErrors (loadSensorData Log Exp Parse Now configMap) =
    map (fun _ => loadError) (filter failed configMap).
Proof.
  intros Hin Hh. split; [| split].
  - apply (Permutation_in _ (Permutation_sym (executed_perm Log Exp Parse Now configMap))).
    apply in_map. exact Hin.
  - apply (calcDewPoint_nonpos Log Log_nan Log_negative Log_zero Log_neg_zero).
    exact Hh.
  - rewrite loadSensorData_eq. reflexivity.
Qed.

Lemma Sample_Log_negative (x : float) : (x <? 0)%float = true -> Sample.Log x = nan.
Proof.
  intros H. unfold Sample.Log. rewrite H. destruct (is_nan x); reflexivity.
Qed.

Lemma nonpositive_humidity_reading_witness :
  In (reading Sample.Log Sample.Exp Sample.Parse Sample.Now ("a2", Sample.odd))
     (executed (Sample.loadSensorData Sample.configMap)) /\
  DewPoint (reading Sample.Log Sample.Exp Sample.Parse Sample.Now ("a2", Sample.odd)) = nan /\
  httpErrors (Sample.loadSensorData Sample.configMap) =
    map (fun _ => loadError) (filter failed Sample.configMap).
Proof.
  apply (nonpositive_humidity_reading Sample.Log Sample.Exp Sample.Parse Sample.Now
           eq_refl Sample_Log_negative eq_refl eq_refl).
  - simpl. auto.
  - reflexivity.
Defined.

(** ** Division by one on binary64 *)

Lemma div_eucl_mul (a b : Z) : b <> 0 -> Z.div_eucl (a * b) b = (a, 0).
Proof.
  intros Hb. pose proof (Z.div_mul a b Hb) as Hq. pose proof (Z.mod_mul a b Hb) as Hr.
  unfold Z.div, Z.modulo in Hq, Hr.
  destruct (Z.div_eucl (a * b) b) as [q r]. subst. reflexivity.
Qed.

(** The quotient of a mantissa by the mantissa 2^52 of 1 is exact. *)
Lemma div_core_one (m : positive) (e : Z) :
  bounded prec emax m e = true ->
  SFdiv_core_binary prec emax (Zpos m) e 4503599627370496 (-52) =
  if -1074 <? e then (Zpos m~0, e - 1, loc_Exact) else (Zpos m, e, loc_Exact).
Proof.
  intros Hb. unfold bounded, canonical_mantissa in Hb.
  apply andb_prop in Hb. destruct Hb as [Hc He].
  apply Z.eqb_eq in Hc. apply Z.leb_le in He.
  unfold fexp, SpecFloat.emin, prec, emax in Hc, He.
  unfold SFdiv_core_binary, fexp, SpecFloat.emin, prec, emax.
  change (Zdigits2 (Z.pos m)) with (Z.pos (digits2_pos m)).
  change (Zdigits2 4503599627370496) with 53.
  set (dm := Z.pos (digits2_pos m)) in *.
  assert (Hdm : 0 < dm) by (unfold dm; lia).
  cbv zeta.
  destruct (Z.ltb_spec (-1074) e) as [Hn | Hs].
  - replace (Z.min (Z.max (dm + e - (53 + -52) - 53) (3 - 1024 - 53)) (e - -52))
      with (e - 1) by lia.
    replace (e - -52 - (e - 1)) with 53 by lia.
    replace (Z.shiftl (Z.pos m) 53) with (Z.pos m~0 * 4503599627370496)
      by (rewrite Z.shiftl_mul_pow2 by lia; lia).
    rewrite div_eucl_mul by lia. reflexivity.
  - replace (Z.min (Z.max (dm + e - (53 + -52) - 53) (3 - 1024 - 53)) (e - -52))
      with e by lia.
    replace (e - -52 - e) with 52 by lia.
    replace (Z.shiftl (Z.pos m) 52) with (Z.pos m * 4503599627370496)
      by (rewrite Z.shiftl_mul_pow2 by lia; lia).
    rewrite div_eucl_mul by lia. reflexivity.
Qed.

(** Rounding a mantissa that is already in canonical form changes nothing. *)
Lemma round_aux_exact (s : bool) (m : positive) (e : Z) :
  bounded prec emax m e = true ->
  binary_round_aux prec emax s (Zpos m) e loc_Exact = S754_finite s m e.
Proof.
  intros Hb. unfold bounded, canonical_mantissa in Hb.
  apply andb_prop in Hb. destruct Hb as [Hc He].
  apply Z.eqb_eq in Hc.
  unfold binary_round_aux, shr_fexp.
  change (Zdigits2 (Z.pos m)) with (Z.pos (digits2_pos m)).
  rewrite Hc, Z.sub_diag. cbn [shr shr_record_of_loc shr_m loc_of_shr_record round_nearest_even].
  change (Zdigits2 (Z.pos m)) with (Z.pos (digits2_pos m)).
  rewrite Hc, Z.sub_diag. cbn [shr shr_record_of_loc shr_m].
  rewrite He. reflexivity.
Qed.

(** A canonical mantissa doubled, one exponent lower, rounds back to it. *)
Lemma round_aux_double (s : bool) (m : positive) (e : Z) :
  bounded prec emax m e = true -> -1074 < e ->
  binary_round_aux prec emax s (Zpos m~0) (e - 1) loc_Exact = S754_finite s m e.
Proof.
  intros Hb Hn. unfold bounded, canonical_mantissa in Hb.
  apply andb_prop in Hb. destruct Hb as [Hc He].
  apply Z.eqb_eq in Hc.
  unfold binary_round_aux, shr_fexp.
  change (Zdigits2 (Z.pos m~0)) with (Z.pos (Pos.succ (digits2_pos m))).
  assert (E1 : fexp prec emax (Z.pos (Pos.succ (digits2_pos m)) + (e - 1)) - (e - 1) = 1).
  { unfold fexp, SpecFloat.emin, prec, emax in *. lia. }
  rewrite E1.
  cbn [shr shr_record_of_loc iter_pos shr_1 shr_m loc_of_shr_record round_nearest_even orb].
  replace (e - 1 + 1) with e by lia.
  change (Zdigits2 (Z.pos m)) with (Z.pos (digits2_pos m)).
  rewrite Hc, Z.sub_diag. cbn [shr shr_record_of_loc shr_m].
  rewrite He. reflexivity.
Qed.

Lemma SFdiv_one (s : bool) (m : positive) (e : Z) :
  bounded prec emax m e = true ->
  SF64div (S754_finite s m e) (S754_finite false 4503599627370496 (-52)) =
  S754_finite s m e.
Proof.
  intros Hb. unfold SF64div, SFdiv. rewrite (div_core_one m e Hb).
  rewrite xorb_false_r.
  destruct (Z.ltb_spec (-1074) e) as [Hn | Hs].
  - apply round_aux_double; assumption.
  - apply round_aux_exact; assumption.
Qed.

(** [x / 1] is [x], for every float. *)
Lemma div_one (x : float) : (x / 1)%float = x.
Proof.
  apply Prim2SF_inj. rewrite div_spec.
  change (Prim2SF 1) with (S754_finite false 4503599627370496 (-52)).
  pose proof (Prim2SF_valid x) as Hv.
  destruct (Prim2SF x) as [s | s | | s m e]; try (destruct s; reflexivity); [reflexivity |].
  apply SFdiv_one. exact Hv.
Qed.

(** ** What [math.Round] returns *)

Lemma digits2_pos_bound (m : positive) : Z.pos m < 2 ^ Z.pos (digits2_pos m).
Proof.
  induction m as [m IH | m IH |]; cbn [digits2_pos].
  - rewrite Pos2Z.inj_succ, Z.pow_succ_r by lia. lia.
  - rewrite Pos2Z.inj_succ, Z.pow_succ_r by lia. lia.
  - reflexivity.
Qed.

(** The mantissa of a float is below 2^53. *)
Lemma mantissa_bound (m : positive) (e : Z) :
  bounded prec emax m e = true -> Z.pos m < 2 ^ 53.
Proof.
  intros Hb. unfold bounded, canonical_mantissa in Hb.
  apply andb_prop in Hb. destruct Hb as [Hc _]. apply Z.eqb_eq in Hc.
  unfold fexp, SpecFloat.emin, prec, emax in Hc.
  pose proof (digits2_pos_bound m) as Hd.
  assert (Hle : Z.pos (digits2_pos m) <= 53) by lia.
  eapply Z.lt_le_trans; [exact Hd |].
  apply Z.pow_le_mono_r; lia.
Qed.

Lemma nearestUp_bound (m d : Z) :
  0 < m < 2 ^ 53 -> 2 <= d -> 0 <= Go.nearestUp m d <= 2 ^ 52.
Proof.
  intros Hm Hd. unfold Go.nearestUp.
  assert (Hd0 : 0 < d) by lia.
  pose proof (Z.div_mod m d) as Hdm.
  pose proof (Z.mod_pos_bound m d Hd0) as Hr.
  assert (Hq : 0 <= m / d) by (apply Z.div_pos; lia).
  change (2 ^ 53) with (2 * 2 ^ 52) in Hm.
  destruct (Z.leb_spec d (2 * (m mod d))); nia.
Qed.

(** [math.Round] returns a whole number, or what it was given when that
    is not finite. *)
Lemma Round_whole (x : float) : wholeNumber (Go.Round x) \/ notFinite (Go.Round x).
Proof.
  unfold Go.Round. pose proof (Prim2SF_valid x) as Hv.
  destruct (Prim2SF x) as [s | s | | s m e] eqn:E.
  - left. left. exists 0. split; [lia |].
    destruct s; [right | left]; apply Prim2SF_inj; rewrite E; reflexivity.
  - right. right. destruct s; [right | left]; apply Prim2SF_inj; rewrite E; reflexivity.
  - right. left. apply Prim2SF_inj. rewrite E. reflexivity.
  - destruct (Z.leb_spec 0 e) as [He | He].
    + left. right. exists s, m, e. split; [exact E | exact He].
    + left. left.
      assert (Hk : 0 <= Go.nearestUp (Z.pos m) (2 ^ (- e)) <= 2 ^ 52).
      { apply nearestUp_bound.
        - split; [lia | apply (mantissa_bound m e Hv)].
        - change 2 with (2 ^ 1) at 1. apply Z.pow_le_mono_r; lia. }
      set (k := Go.nearestUp (Z.pos m) (2 ^ (- e))) in *.
      destruct s.
      * exists (- k). split; [lia |].
        destruct (Z.eq_dec k 0) as [K0 | K0].
        -- right. rewrite K0. reflexivity.
        -- left. unfold float_of_Z.
           destruct (Z.ltb_spec (- k) 0) as [_ | Hge]; [| lia].
           rewrite Z.opp_involutive. reflexivity.
      * exists k. split; [lia |]. left. unfold float_of_Z.
        destruct (Z.ltb_spec k 0) as [Hlt | _]; [lia | reflexivity].
Qed.

(** ** Absolute humidity *)

Lemma calcAbsHum_round (Exp : float -> float) (h t : float) :
  calcAbsHum Exp h t = Go.Round (absHum_spec Exp h t * 10).
Proof. unfold calcAbsHum, absHum_spec. cbv zeta. apply div_one. Qed.

(** At 50 % and 0 degrees the formula gives 2.42, which [math.Round]
    takes to 2, for every [math.Exp] with [Exp(0) = 1]. *)
Lemma absHum_50_0 (Exp : float -> float) :
  Exp 0%float = 1%float -> Go.Round (absHum_spec Exp 50 0) = 2%float.
Proof.
  intros H. unfold absHum_spec.
  change (17.67 * 0 / (0 + 243.5))%float with 0%float. rewrite H.
  vm_compute. reflexivity.
Qed.

(** Outside the range of a sensor the result need not be finite: a
    humidity of 1e308 overflows, and at -273.15 degrees the divisor is 0. *)
Lemma calcAbsHum_infinite (Exp : float -> float) :
  Exp 0%float = 1%float -> calcAbsHum Exp 1e308 0 = infinity.
Proof.
  intros H. unfold calcAbsHum. cbv zeta.
  change (17.67 * 0 / (0 + 243.5))%float with 0%float. rewrite H.
  vm_compute. reflexivity.
Qed.

(** C2, as the claim states it, fails at 50 % and 0 degrees: the formula
    gives 2.42, whose nearest whole number is 2, and [calcAbsHum] returns
    24. *)
Lemma calcAbsHum_not_nearest_unit :
  calcAbsHum Sample.Exp 50 0 = 24%float /\
  Go.Round (absHum_spec Sample.Exp 50 0) = 2%float /\
  ~ (forall (Exp : float -> float) (h t : float),
       Exp 0%float = 1%float ->
       calcAbsHum Exp h t = Go.Round (absHum_spec Exp h t)).
Proof.
  split; [apply calcAbsHum_50_0; reflexivity |].
  split; [apply absHum_50_0; reflexivity |].
  intros H. specialize (H Sample.Exp 50%float 0%float eq_refl).
  rewrite (calcAbsHum_50_0 Sample.Exp eq_refl) in H.
  rewrite (absHum_50_0 Sample.Exp eq_refl) in H.
  apply (f_equal Prim2SF) in H. vm_compute in H. discriminate H.
Qed.

(** C2, amended: on binary64 [calcAbsHum] returns [math.Round] of ten
    times the value of the formula (the division by 1 changes nothing);
    the result is a whole number, or is not finite when the formula
    overflows or is not defined. *)
Theorem calcAbsHum_tenfold (Exp : float -> float) (h t : float) :
  calcAbsHum Exp h t = Go.Round (absHum_spec Exp h t * 10) /\
  (wholeNumber (calcAbsHum Exp h t) \/ notFinite (calcAbsHum Exp h t)).
Proof.
  split; [apply calcAbsHum_round |].
  rewrite calcAbsHum_round. apply Round_whole.
Qed.

(** ** Dew point and temperature *)







(** * Further properties of the handler *)

(** ** The shape of the relative time *)

Lemma fmt_d_head (z : Z) :
  exists c s, Go.fmt_d z = String c s /\ c <> "U"%char.
Proof.
  unfold Go.fmt_d. destruct (Z.to_int z) as [d | d]; simpl.
  - destruct d; simpl; eexists; eexists; (split; [reflexivity | discriminate]).
  - eexists; eexists; (split; [reflexivity | discriminate]).
Qed.

Lemma counted_label_not_up_to_date (n : Z) (rest : string) :
  Go.fmt_d n ++ rest <> "Up to date".
Proof.
  destruct (fmt_d_head n) as [c [s [E Hc]]]. rewrite E. simpl.
  intros H. injection H as Hc' _. contradiction.
Qed.

(** "Up to date" is the label of a difference below one minute and of no
    other: data that is a minute old or older never reads as current. *)
Theorem up_to_date_iff (diff_seconds : Z) :
  timeRelative diff_seconds = "Up to date" <-> diff_seconds < 60.
Proof.
  unfold timeRelative. destruct (Z.ltb_spec diff_seconds 60) as [H | H].
  - split; [intros _; exact H | reflexivity].
  - split; [| lia]. intros E. exfalso. revert E.
    destruct (_ <? 60); [| destruct (_ <? 24)]; apply counted_label_not_up_to_date.
Qed.

(** From one minute on, the label counts whole units, and the count is
    never 0 and never a full next unit: 1 to 59 minutes, 1 to 23 hours,
    1 day or more. *)
Theorem label_count_bounds (diff_seconds : Z) :
  60 <= diff_seconds ->
  exists n word ago,
    timeRelative diff_seconds = Go.fmt_d n ++ " " ++ word ++ plural n "s" ++ ago /\
    1 <= n /\
    ((word = "Minute" /\ ago = " ago" /\ n < 60 /\ 60 * n <= diff_seconds < 60 * (n + 1)) \/
     (word = "Hour" /\ ago = " ago" /\ n < 24 /\ 3600 * n <= diff_seconds < 3600 * (n + 1)) \/
     (word = "Day" /\ ago = "" /\ 86400 * n <= diff_seconds < 86400 * (n + 1))).
Proof.
  intros Hs. unfold timeRelative.
  destruct (Z.ltb_spec diff_seconds 60) as [H | _]; [lia |].
  rewrite (Z.quot_quot diff_seconds 60 60) by lia.
  rewrite (Z.quot_quot diff_seconds (60 * 60) 24) by lia.
  rewrite (quot_lt_band diff_seconds 60 60) by lia.
  rewrite (quot_lt_band diff_seconds (60 * 60) 24) by lia.
  change (60 * 60) with 3600. change (3600 * 24) with 86400.
  rewrite !Z.quot_div_nonneg by lia.
  pose proof (Z.mul_div_le diff_seconds 60 ltac:(lia)).
  pose proof (Z.mul_succ_div_gt diff_seconds 60 ltac:(lia)).
  pose proof (Z.mul_div_le diff_seconds 3600 ltac:(lia)).
  pose proof (Z.mul_succ_div_gt diff_seconds 3600 ltac:(lia)).
  pose proof (Z.mul_div_le diff_seconds 86400 ltac:(lia)).
  pose proof (Z.mul_succ_div_gt diff_seconds 86400 ltac:(lia)).
  destruct (Z.ltb_spec diff_seconds 3600) as [Hm | Hm];
    [| destruct (Z.ltb_spec diff_seconds 86400) as [Hh | Hh]].
  - exists (diff_seconds / 60), "Minute", " ago".
    split; [reflexivity |]. split; [lia |]. left. repeat split; lia.
  - exists (diff_seconds / 3600), "Hour", " ago".
    split; [reflexivity |]. split; [lia |]. right. left. repeat split; lia.
  - exists (diff_seconds / 86400), "Day", "".
    split; [| split; [lia |]].
    + unfold plural. destruct (_ =? 1); reflexivity.
    + right. right. repeat split; lia.
Qed.

Lemma label_count_bounds_witness :
  exists n word ago,
    timeRelative 7199 = Go.fmt_d n ++ " " ++ word ++ plural n "s" ++ ago /\
    1 <= n /\
    ((word = "Minute" /\ ago = " ago" /\ n < 60 /\ 60 * n <= 7199 < 60 * (n + 1)) \/
     (word = "Hour" /\ ago = " ago" /\ n < 24 /\ 3600 * n <= 7199 < 3600 * (n + 1)) \/
     (word = "Day" /\ ago = "" /\ 86400 * n <= 7199 < 86400 * (n + 1))).
Proof. apply (label_count_bounds 7199). lia. Defined.

(** ** The battery icon on the whole range of [int8] *)

(** The icon set before the tests, "fa-battery-exclamation", is never the
    one a record carries: every level gets one of the six band icons, a
    level below 0 the red one and a level above 100 the green one. *)
Theorem batteryIcon_never_default (BatteryLevel : Z) :
  batteryIcon BatteryLevel <> "fa-battery-exclamation" /\
  In (batteryIcon BatteryLevel)
    ["fa-battery-empty red"; "fa-battery-empty yellow"; "fa-battery-quarter";
     "fa-battery-half"; "fa-battery-three-quarters"; "fa-battery-full green"] /\
  (BatteryLevel < 0 -> batteryIcon BatteryLevel = "fa-battery-empty red") /\
  (100 < BatteryLevel -> batteryIcon BatteryLevel = "fa-battery-full green").
Proof.
  unfold batteryIcon.
  repeat (match goal with
          | |- context [?a <? ?b] => destruct (Z.ltb_spec a b)
          end);
    (split; [discriminate |]); (split; [simpl; tauto |]); split; intros; (reflexivity || lia).
Qed.

(** ** One record per device, failed or not *)

(** The loop has no early exit: every configured device has its record in
    the slice given to the template, also a device whose fetch failed, and
    [http.Error] is called once for each failed fetch. *)
Theorem one_record_per_device (Log Exp : float -> float) (Parse : string -> option Z)
  (Now : string -> Z) (configMap : ConfigMap) :
  List.length (executed (loadSensorData Log Exp Parse Now configMap)) = List.length configMap /\
  (forall entry, In entry configMap ->
     In (reading Log Exp Parse Now entry)
        (executed (loadSensorData Log Exp Parse Now configMap))) /\
  List.length (httpErrors (loadSensorData Log Exp Parse Now configMap)) =
    List.length (filter failed configMap).
Proof.
  split; [| split].
  - rewrite (Permutation_length (executed_perm Log Exp Parse Now configMap)).
    apply length_map.
  - intros entry Hin.
    apply (Permutation_in _ (Permutation_sym (executed_perm Log Exp Parse Now configMap))).
    apply in_map. exact Hin.
  - rewrite loadSensorData_eq. apply length_map.
Qed.

(** ** A device whose store gave no row *)

(** When the query fails before [Scan] wrote anything, the loop goes on
    with the zero values: the record shows 0 degrees and 0 %, a dew point
    that is not a number, an absolute humidity of 0, the red battery icon,
    the label "Dew point" and an empty relative time. *)
Theorem empty_store_record (Log Exp : float -> float) (Parse : string -> option Z)
  (Now : string -> Z) (mac loc : string) :
  Log 0%float = neg_infinity -> Exp 0%float = 1%float -> Parse "" = None ->
  reading Log Exp Parse Now (mac, mkConfig loc (mkScan 0 0 0 0 "" true)) =
  mkSensorData 0 0 0 0 "" nan 0 "fa-battery-empty red" "Dew point" mac loc "".
Proof.
  intros HLog HExp HParse. unfold reading, loadSensor. cbn [fst snd Config_Db Config_Loc
    scan_err scan_humidity scan_temp scan_battery_mv scan_battery_level scan_timestamp].
  rewrite HParse.
  change (0 / 100)%float with 0%float.
  assert (Hd : calcDewPoint Log 0 0 = nan).
  { unfold calcDewPoint. cbv zeta. change (0 <? 0)%float with false. cbv beta iota.
    change (0 / 100.0)%float with 0%float. rewrite HLog. vm_compute. reflexivity. }
  assert (Ha : calcAbsHum Exp 0 0 = 0%float).
  { unfold calcAbsHum. cbv zeta.
    change (17.67 * 0 / (0 + 243.5))%float with 0%float. rewrite HExp.
    vm_compute. reflexivity. }
  rewrite Hd, Ha. reflexivity.
Qed.

Lemma empty_store_record_witness :
  reading Sample.Log Sample.Exp Sample.Parse Sample.Now ("c0", Sample.broken) =
  mkSensorData 0 0 0 0 "" nan 0 "fa-battery-empty red" "Dew point" "c0" "Attic" "".
Proof.
  apply (empty_store_record Sample.Log Sample.Exp Sample.Parse Sample.Now "c0" "Attic");
    reflexivity.
Defined.

(** ** Values that are not numbers *)

Lemma add_nan_r (x : float) : (x + nan = nan)%float.
Proof. by_spec. destruct (Prim2SF x); reflexivity. Qed.

Lemma sub_nan_r (x : float) : (x - nan = nan)%float.
Proof. by_spec. destruct (Prim2SF x); reflexivity. Qed.

(** A humidity or a temperature that is not a number gives a dew point
    that is not a number: no finite value is made up for it. *)
Theorem calcDewPoint_nan (Log : float -> float) (h t : float) :
  Log nan = nan ->
  calcDewPoint Log nan t = nan /\ calcDewPoint Log h nan = nan.
Proof.
  intros HLog. split.
  - unfold calcDewPoint. change (nan / 100.0)%float with nan. rewrite HLog.
    destruct (t <? 0)%float; cbv zeta; cbv beta iota;
      rewrite point_nan; solve [reflexivity | left; reflexivity].
  - unfold calcDewPoint. cbv zeta. change (nan <? 0)%float with false. cbv beta iota.
    rewrite div_nan_l, !mul_nan_r, add_nan_r, sub_nan_r, div_nan_l. reflexivity.
Qed.

Lemma calcDewPoint_nan_witness :
  calcDewPoint Sample.Log nan 21.5 = nan /\ calcDewPoint Sample.Log 45 nan = nan.
Proof. apply (calcDewPoint_nan Sample.Log 45 21.5). reflexivity. Defined.

(** ** The difference in seconds *)

(** For a clock and a timestamp within 2^62 seconds of the epoch, which
    holds every RFC 3339 date, the [int64] subtraction does not wrap: the
    label is the one of the true difference. *)
Theorem elapsed_exact (Log Exp : float -> float) (Parse : string -> option Z)
  (Now : string -> Z) (entry : string * Config) (unix : Z) :
  Parse (scan_timestamp (Config_Db (snd entry))) = Some unix ->
  - 2 ^ 62 <= Now (fst entry) < 2 ^ 62 -> - 2 ^ 62 <= unix < 2 ^ 62 ->
  TimeRelative (reading Log Exp Parse Now entry) = timeRelative (Now (fst entry) - unix).
Proof.
  intros Hparse Hnow Hunix. rewrite TimeRelative_reading, Hparse.
  rewrite sub64_exact by assumption. reflexivity.
Qed.

Lemma elapsed_exact_witness :
  TimeRelative (reading Sample.Log Sample.Exp Sample.Parse Sample.Now ("b1", Sample.good)) =
  timeRelative (1714572000 - 1714564800).
Proof.
  apply (elapsed_exact Sample.Log Sample.Exp Sample.Parse Sample.Now ("b1", Sample.good)
           1714564800).
  - reflexivity.
  - simpl. unfold Sample.Now. lia.
  - lia.
Defined.

(** ** Start-up *)

Lemma lookup_assign_same (mac : string) (c : Config) (m : ConfigMap) :
  lookup mac (assign mac c m) = Some c.
Proof.
  induction m as [| [k v] m IH]; simpl.
  - rewrite String.eqb_refl. reflexivity.
  - destruct (String.eqb k mac) eqn:E; simpl; rewrite E; [reflexivity | exact IH].
Qed.

Lemma lookup_assign_other (mac mac' : string) (c : Config) (m : ConfigMap) :
  mac' <> mac -> lookup mac' (assign mac c m) = lookup mac' m.
Proof.
  intros Hne. induction m as [| [k v] m IH]; simpl.
  - destruct (String.eqb_spec mac mac'); [congruence | reflexivity].
  - destruct (String.eqb_spec k mac) as [E | E]; simpl.
    + subst k. destruct (String.eqb_spec mac mac'); [congruence | reflexivity].
    + destruct (String.eqb k mac'); [reflexivity | exact IH].
Qed.

Lemma keys_assign (mac : string) (c : Config) (m : ConfigMap) :
  lookup mac m <> None -> map fst (assign mac c m) = map fst m.
Proof.
  induction m as [| [k v] m IH]; simpl; intros H.
  - contradiction.
  - destruct (String.eqb k mac); simpl; [reflexivity |].
    rewrite IH by exact H. reflexivity.
Qed.

Lemma lookup_keys (mac : string) (m : ConfigMap) :
  In mac (map fst m) <-> lookup mac m <> None.
Proof.
  induction m as [| [k v] m IH]; simpl.
  - split; [contradiction | congruence].
  - destruct (String.eqb_spec k mac) as [E | E].
    + split; [discriminate | auto].
    + rewrite <- IH. split; [intros [H | H]; [contradiction | exact H] | auto].
Qed.

Lemma lookup_In (mac : string) (c : Config) (m : ConfigMap) :
  lookup mac m = Some c -> In (mac, c) m.
Proof.
  induction m as [| [k v] m IH]; simpl; [discriminate |].
  destruct (String.eqb_spec k mac) as [E | E].
  - intros H. injection H as H. subst. left. reflexivity.
  - intros H. right. apply IH. exact H.
Qed.

Section StartupFacts.

Variable sql_Open : string -> option ScanResult.

(** What the loop has done after the keys of [visit]: the keys of the map
    are the same, each visited key has its label and the handle of its own
    file, the others are untouched. *)
Lemma openStores_inv (visit : list string) :
  forall m,
    NoDup visit ->
    (forall k, In k visit -> lookup k m <> None) ->
    (forall k, In k visit -> sql_Open (dbPath k) <> None) ->
    exists m',
      openStores sql_Open visit m = Some m' /\
      map fst m' = map fst m /\
      (forall k, In k visit ->
         exists cfg db, lookup k m = Some cfg /\ sql_Open (dbPath k) = Some db /\
                        lookup k m' = Some (mkConfig (Config_Loc cfg) db)) /\
      (forall k, ~ In k visit -> lookup k m' = lookup k m).
Proof.
  induction visit as [| mac rest IH]; intros m Hnd Hin Hopen.
  - exists m. simpl. split; [reflexivity |]. split; [reflexivity |].
    split; [contradiction | reflexivity].
  - apply NoDup_cons_iff in Hnd. destruct Hnd as [Hmac Hnd]. simpl.
    destruct (lookup mac m) as [cfg |] eqn:Elk;
      [| exfalso; apply (Hin mac); [left; reflexivity | exact Elk]].
    destruct (sql_Open (dbPath mac)) as [db |] eqn:Eop;
      [| exfalso; apply (Hopen mac); [left; reflexivity | exact Eop]].
    set (m1 := assign mac (mkConfig (Config_Loc cfg) db) m).
    assert (Hother : forall k, In k rest -> lookup k m1 = lookup k m).
    { intros k Hk. apply lookup_assign_other. intros E. subst k. contradiction. }
    destruct (IH m1 Hnd) as [m' [Hrun [Hkeys [Hvis Hrest]]]].
    { intros k Hk. rewrite (Hother k Hk). apply Hin. right. exact Hk. }
    { intros k Hk. apply Hopen. right. exact Hk. }
    exists m'. split; [exact Hrun |]. split; [| split].
    + rewrite Hkeys. apply keys_assign. rewrite Elk. discriminate.
    + intros k [E | Hk].
      * subst k. exists cfg, db. repeat split; try assumption.
        rewrite (Hrest mac Hmac). apply lookup_assign_same.
      * destruct (Hvis k Hk) as [cfg' [db' [H1 [H2 H3]]]].
        exists cfg', db'. rewrite <- (Hother k Hk). repeat split; assumption.
    + intros k Hk. rewrite Hrest by (intros H; apply Hk; right; exact H).
      apply lookup_assign_other. intros E. apply Hk. left. symmetry. exact E.
Qed.

End StartupFacts.

(** When every database opens, the loop of [main] leaves a map with the
    same keys in which each device keeps the label of the configuration
    and holds the handle of its own file, ["../logs/<mac>.db"], whatever
    order the keys are visited in. *)
Theorem stores_opened (sql_Open : string -> option ScanResult)
  (configMap : ConfigMap) (visit : list string) :
  NoDup (map fst configMap) -> Permutation visit (map fst configMap) ->
  (forall mac, In mac visit -> sql_Open (dbPath mac) <> None) ->
  exists opened,
    openStores sql_Open visit configMap = Some opened /\
    map fst opened = map fst configMap /\
    forall mac cfg, lookup mac configMap = Some cfg ->
      exists db, sql_Open (dbPath mac) = Some db /\
                 lookup mac opened = Some (mkConfig (Config_Loc cfg) db).
Proof.
  intros Hnd Hp Hopen.
  assert (Hv : NoDup visit) by (apply (Permutation_NoDup (Permutation_sym Hp) Hnd)).
  destruct (openStores_inv sql_Open visit configMap Hv) as [m' [Hrun [Hkeys [Hvis _]]]].
  { intros k Hk. apply lookup_keys. apply (Permutation_in _ Hp). exact Hk. }
  { exact Hopen. }
  exists m'. split; [exact Hrun |]. split; [exact Hkeys |].
  intros mac cfg Hlk.
  assert (Hin : In mac visit).
  { apply (Permutation_in _ (Permutation_sym Hp)). apply lookup_keys.
    rewrite Hlk. discriminate. }
  destruct (Hvis mac Hin) as [cfg' [db [H1 [H2 H3]]]].
  rewrite Hlk in H1. injection H1 as H1. subst cfg'.
  exists db. split; assumption.
Qed.

Lemma openStores_fatal (sql_Open : string -> option ScanResult) (visit : list string) :
  forall m mac,
    (forall k, In k visit -> In k (map fst m)) ->
    In mac visit -> sql_Open (dbPath mac) = None ->
    openStores sql_Open visit m = None.
Proof.
  induction visit as [| k rest IH]; intros m mac Hkeys Hin Hfail; [contradiction |].
  simpl.
  destruct (lookup k m) as [cfg |] eqn:Elk.
  - destruct (sql_Open (dbPath k)) as [db |] eqn:Eop; [| reflexivity].
    destruct Hin as [E | Hin]; [subst k; congruence |].
    apply (IH _ mac); [| exact Hin | exact Hfail].
    intros k' Hk'. rewrite keys_assign by (rewrite Elk; discriminate).
    apply Hkeys. right. exact Hk'.
  - exfalso. apply (proj1 (lookup_keys k m)); [| exact Elk].
    apply Hkeys. left. reflexivity.
Qed.

Lemma sample_startup_keys : NoDup (map fst SampleStartup.configMap).
Proof. simpl. repeat constructor; simpl; intuition discriminate. Qed.

Lemma sample_startup_visit :
  Permutation ["a2"; "c0"; "b1"] (map fst SampleStartup.configMap).
Proof.
  simpl. eapply perm_trans; [apply perm_skip, perm_swap |]. apply perm_swap.
Qed.

Lemma sample_startup_opens (mac : string) :
  In mac ["a2"; "c0"; "b1"] -> SampleStartup.sql_Open (dbPath mac) <> None.
Proof. intros [E | [E | [E | []]]]; subst mac; discriminate. Qed.

Lemma stores_opened_witness :
  exists opened,
    openStores SampleStartup.sql_Open ["a2"; "c0"; "b1"] SampleStartup.configMap =
      Some opened /\
    map fst opened = map fst SampleStartup.configMap /\
    forall mac cfg, lookup mac SampleStartup.configMap = Some cfg ->
      exists db, SampleStartup.sql_Open (dbPath mac) = Some db /\
                 lookup mac opened = Some (mkConfig (Config_Loc cfg) db).
Proof.
  exact (stores_opened SampleStartup.sql_Open SampleStartup.configMap ["a2"; "c0"; "b1"]
           sample_startup_keys sample_startup_visit sample_startup_opens).
Defined.

(** Start-up followed by one run of the handler: every configured device
    has, in the slice given to the template, the record computed from the
    row of its own file ["../logs/<mac>.db"] under the label of the
    configuration, whatever the two visiting orders. *)
Theorem startup_then_load (Log Exp : float -> float) (Parse : string -> option Z)
  (Now : string -> Z) (sql_Open : string -> option ScanResult)
  (configMap opened served : ConfigMap) (visit : list string) :
  NoDup (map fst configMap) -> Permutation visit (map fst configMap) ->
  openStores sql_Open visit configMap = Some opened ->
  Permutation opened served ->
  forall mac cfg, lookup mac configMap = Some cfg ->
    exists db, sql_Open (dbPath mac) = Some db /\
      In (reading Log Exp Parse Now (mac, mkConfig (Config_Loc cfg) db))
         (executed (loadSensorData Log Exp Parse Now served)).
Proof.
  intros Hnd Hp Hrun Hserved mac cfg Hlk.
  assert (Hv : NoDup visit) by (apply (Permutation_NoDup (Permutation_sym Hp) Hnd)).
  assert (Hkeys : forall k, In k visit -> In k (map fst configMap))
    by (intros k Hk; apply (Permutation_in _ Hp); exact Hk).
  assert (Hopen : forall k, In k visit -> sql_Open (dbPath k) <> None).
  { intros k Hk Hfail.
    rewrite (openStores_fatal sql_Open visit configMap k Hkeys Hk Hfail) in Hrun.
    discriminate Hrun. }
  destruct (openStores_inv sql_Open visit configMap Hv) as [m' [Hrun' [_ [Hvis _]]]].
  { intros k Hk. apply lookup_keys. apply Hkeys. exact Hk. }
  { exact Hopen. }
  rewrite Hrun in Hrun'. injection Hrun' as E. subst m'.
  assert (Hin : In mac visit).
  { apply (Permutation_in _ (Permutation_sym Hp)). apply lookup_keys.
    rewrite Hlk. discriminate. }
  destruct (Hvis mac Hin) as [cfg' [db [H1 [H2 H3]]]].
  rewrite Hlk in H1. injection H1 as H1. subst cfg'.
  exists db. split; [exact H2 |].
  apply (Permutation_in _ (Permutation_sym (executed_perm Log Exp Parse Now served))).
  apply in_map. apply (Permutation_in _ Hserved). apply lookup_In. exact H3.
Qed.

Lemma startup_then_load_witness :
  exists db, SampleStartup.sql_Open (dbPath "b1") = Some db /\
    In (reading Sample.Log Sample.Exp Sample.Parse Sample.Now
          ("b1", mkConfig (Config_Loc (SampleStartup.unopened "Living room")) db))
       (executed (Sample.loadSensorData Sample.configMap)).
Proof.
  apply (startup_then_load Sample.Log Sample.Exp Sample.Parse Sample.Now
           SampleStartup.sql_Open SampleStartup.configMap Sample.configMap
           Sample.configMap ["a2"; "c0"; "b1"] sample_startup_keys sample_startup_visit).
  - vm_compute. reflexivity.
  - apply Permutation_refl.
  - reflexivity.
Defined.

(** ** Absolute humidity of values that are not numbers *)

Lemma mul_nan_l (y : float) : (nan * y = nan)%float.
Proof. by_spec. reflexivity. Qed.

(** A humidity or a temperature that is not a number gives an absolute
    humidity that is not a number. *)
Theorem calcAbsHum_nan (Exp : float -> float) (h t : float) :
  Exp nan = nan ->
  calcAbsHum Exp nan t = nan /\ calcAbsHum Exp h nan = nan.
Proof.
  intros HExp. unfold calcAbsHum. cbv zeta. split.
  - rewrite mul_nan_r, div_nan_l. reflexivity.
  - rewrite mul_nan_r, div_nan_l, HExp, mul_nan_r, mul_nan_l, div_nan_l. reflexivity.
Qed.

Lemma calcAbsHum_nan_witness :
  calcAbsHum Sample.Exp nan 21.5 = nan /\ calcAbsHum Sample.Exp 45 nan = nan.
Proof. apply (calcAbsHum_nan Sample.Exp 45 21.5). reflexivity. Defined.
